(** * health_checker: DAG system health API

    A shallow embedding of [src/health_checker.py]: the graph builder
    [create_dag_from_json], the simulated probe [check_component_health]
    and the aggregation loop of [perform_health_check], followed by the
    properties of the report they produce.

    Python strings are modelled by [string] (their UTF-8 bytes; the
    byte-wise lexicographic order of [String.compare] is the code-point
    order Python uses to compare [str] values).  A [dict] is the sequence
    of its [items()], a [list] is a [list].  The two sources of
    nondeterminism of the program, the iteration order of a Python [set]
    and the draws of the [random] module, are explicit inputs. *)

From Stdlib Require Import String Ascii List Bool ZArith QArith.
From Stdlib Require Import Permutation Sorted Lia RelationClasses.
From Stdlib Require OrdersEx.
Import ListNotations.

Local Open Scope string_scope.
Local Open Scope list_scope.

(** ** Pydantic data models *)

Definition SystemRelationships := list (string * list string).

Record ComponentDetail := mkComponentDetail {
  component : string;
  status : string;
  details : string
}.

Record HealthReport := mkHealthReport {
  system_status : string;
  component_details : list ComponentDetail;
  failed_components : list string;
  graph_image_base64 : option string
}.

(** ** Constants and simulation settings *)

(** [FAILURE_RATE = 0.15]: the literal denotes the binary64 number
    5404319552844595 / 2^55, the double nearest to 15/100. *)
Definition FAILURE_RATE : Q := 5404319552844595 # (2 ^ 55).

Definition LATENCY_MS : Z := 50.

(** ** The networkx digraph

    [nx.DiGraph] keeps its nodes and, per node, its successors in
    insertion-ordered dictionaries: a node or an edge is stored once,
    at the place of its first insertion. *)

Record DiGraph := mkDiGraph {
  nodes : list string;
  edges : list (string * string)
}.

Definition empty_graph : DiGraph := mkDiGraph [] [].

Definition has_node (G : DiGraph) (n : string) : bool :=
  existsb (String.eqb n) (nodes G).

Definition edge_eqb (e f : string * string) : bool :=
  String.eqb (fst e) (fst f) && String.eqb (snd e) (snd f).

Definition has_edge (G : DiGraph) (u v : string) : bool :=
  existsb (edge_eqb (u, v)) (edges G).

Definition add_node (n : string) (G : DiGraph) : DiGraph :=
  if has_node G n then G else mkDiGraph (nodes G ++ [n]) (edges G).

(** [G.add_edge(u, v)]: both endpoints are added when absent, then the
    edge is recorded under [u]. *)
Definition add_edge (u v : string) (G : DiGraph) : DiGraph :=
  let G' := add_node v (add_node u G) in
  if has_edge G' u v then G' else mkDiGraph (nodes G') (edges G' ++ [(u, v)]).

(** ** Core logic *)

(** The draws one probe takes from the [random] module: the latency of
    [random.randint(LATENCY_MS, LATENCY_MS * 4)] and the value of
    [random.random()], a double [k / 2^53], as an exact rational. *)
Record Draws := mkDraws {
  latency_ms : Z;
  failure_draw : Q
}.

Definition Qltb (x y : Q) : bool := negb (Qle_bool y x).

Definition ProbeResult : Type := string * string * option string.

(** The sleep only delays the probe; the outcome is decided by the
    failure draw. *)
Definition check_component_health (node_id : string) (d : Draws) : ProbeResult :=
  if Qltb (failure_draw d) FAILURE_RATE
  then (node_id, "DOWN", Some "Service unreachable (Simulated Timeout)")
  else (node_id, "UP", None).

Definition add_children (parent : string) (children : list string)
    (G : DiGraph) : DiGraph :=
  fold_left (fun G child => add_edge parent child G) children G.

Definition create_dag_from_json (relationships : SystemRelationships) : DiGraph :=
  fold_left (fun G item => add_children (fst item) (snd item) G)
            relationships empty_graph.

(** [error if error else "OK"]: [None] and the empty string are falsy. *)
Definition error_or_OK (error : option string) : string :=
  match error with
  | Some (String c s) => String c s
  | _ => "OK"
  end.

(** ** The endpoint *)

(** Iterating over [set(xs)] yields every element of [xs] once, in an
    order fixed by the string hashes of the running interpreter. *)
Record SetIteration := mkSetIteration {
  set_iter : list string -> list string;
  set_iter_NoDup : forall xs, NoDup (set_iter xs);
  set_iter_In : forall xs x, In x (set_iter xs) <-> In x xs
}.

(** What a run of the endpoint takes from outside: the set order, the
    draws of each node's probe, and the image renderer. *)
Record World := mkWorld {
  hash_order : SetIteration;
  random : string -> Draws;
  draw_graph : DiGraph -> list string -> string
}.

(** [asyncio.gather] returns the results in the order of its tasks. *)
Definition raw_results (W : World) (G : DiGraph) : list ProbeResult :=
  map (fun node => check_component_health node (random W node))
      (set_iter (hash_order W) (nodes G)).

(** State of the loop of step 4: [component_details],
    [failed_components], [system_status]. *)
Definition Acc : Type := list ComponentDetail * list string * string.

Definition process_result (acc : Acc) (r : ProbeResult) : Acc :=
  let '(cds, failed, sys) := acc in
  let '(node, st, error) := r in
  let cds' := cds ++ [mkComponentDetail node st (error_or_OK error)] in
  if String.eqb st "DOWN" then (cds', failed ++ [node], "DOWN")
  else (cds', failed, sys).

Definition process_results (rs : list ProbeResult) : Acc :=
  fold_left process_result rs ([], [], "UP").

(** [list.sort(key=lambda x: x.component)]: a stable sort, ascending in
    the key. *)
Fixpoint insert_by_component (d : ComponentDetail) (l : list ComponentDetail)
    : list ComponentDetail :=
  match l with
  | [] => [d]
  | x :: xs =>
      if String.leb (component d) (component x) then d :: l
      else x :: insert_by_component d xs
  end.

Definition sort_by_component (l : list ComponentDetail) : list ComponentDetail :=
  fold_right insert_by_component [] l.

Definition perform_health_check (W : World) (system_data : SystemRelationships)
    : HealthReport :=
  let G := create_dag_from_json system_data in
  let '(cds, failed, sys) := process_results (raw_results W G) in
  let cds := sort_by_component cds in
  let graph_base64 := draw_graph W G failed in
  mkHealthReport sys cds failed (Some graph_base64).

(** ** Concrete worlds, used to run the model *)

(** The set happens to iterate in insertion order. *)
Definition insertion_order : SetIteration :=
  mkSetIteration (nodup string_dec)
                 (NoDup_nodup string_dec)
                 (fun xs x => nodup_In string_dec xs x).

(** The set happens to iterate in the opposite order. *)
Definition reverse_order : SetIteration :=
  mkSetIteration
    (fun xs => rev (nodup string_dec xs))
    (fun xs => NoDup_rev (NoDup_nodup string_dec xs))
    (fun xs x =>
       conj (fun H => proj1 (nodup_In string_dec xs x)
                            (proj2 (in_rev (nodup string_dec xs) x) H))
            (fun H => proj1 (in_rev (nodup string_dec xs) x)
                            (proj2 (nodup_In string_dec xs x) H))).

Definition no_image (G : DiGraph) (failed : list string) : string := "".

(** Every probe draws 0.0: all components are reported DOWN. *)
Definition all_fail (order : SetIteration) : World :=
  mkWorld order (fun _ => mkDraws 50 0) no_image.

(** Every probe draws 0.5: all components are reported UP. *)
Definition none_fail (order : SetIteration) : World :=
  mkWorld order (fun _ => mkDraws 50 (1 # 2)) no_image.

(** The probe of ["X"] draws 0.0, every other probe 0.5. *)
Definition only_X_fails (order : SetIteration) : World :=
  mkWorld order
          (fun n => mkDraws 50 (if String.eqb n "X" then 0 else 1 # 2))
          no_image.

(** ** Vocabulary of the statements *)

Definition node_of (r : ProbeResult) : string := fst (fst r).
Definition status_of (r : ProbeResult) : string := snd (fst r).
Definition error_of (r : ProbeResult) : option string := snd r.

Definition is_down (r : ProbeResult) : bool := String.eqb (status_of r) "DOWN".

Definition detail_of (r : ProbeResult) : ComponentDetail :=
  mkComponentDetail (node_of r) (status_of r) (error_or_OK (error_of r)).

Definition detail_down (d : ComponentDetail) : bool := String.eqb (status d) "DOWN".

(** The order of identifiers: [slt] is the strict lexicographic order. *)
Definition sle (a b : string) : Prop := String.leb a b = true.
Definition slt (a b : string) : Prop := String.ltb a b = true.

Definition component_le (a b : ComponentDetail) : Prop :=
  sle (component a) (component b).
Definition component_lt (a b : ComponentDetail) : Prop :=
  slt (component a) (component b).

(** A graph as [add_edge] builds them: no node and no edge is stored
    twice, and the endpoints of an edge are nodes. *)
Definition well_formed (G : DiGraph) : Prop :=
  NoDup (nodes G) /\ NoDup (edges G) /\
  forall u v, In (u, v) (edges G) -> In u (nodes G) /\ In v (nodes G).

(** The loop of the builder, started from any graph. *)
Definition build_from (G : DiGraph) (relationships : SystemRelationships) : DiGraph :=
  fold_left (fun G item => add_children (fst item) (snd item) G) relationships G.

(** Equality of edges is decidable. *)
Definition edge_dec (e f : string * string) : {e = f} + {e <> f}.
Proof. decide equality; apply string_dec. Defined.

(** Two lists with the same elements. *)
Definition same_set {A : Type} (l l' : list A) : Prop :=
  forall x, In x l <-> In x l'.

(** ** The console table and the node colours *)

(** [len] of a Python string counts code points: the bytes of its UTF-8
    encoding that are not continuation bytes (10xxxxxx). *)
Definition is_continuation_byte (c : ascii) : bool :=
  match c with
  | Ascii _ _ _ _ _ _ b6 b7 => b7 && negb b6
  end.

Fixpoint py_len (s : string) : nat :=
  match s with
  | EmptyString => 0
  | String c s' => (if is_continuation_byte c then 0 else 1) + py_len s'
  end.

(** [s * n] *)
Fixpoint repeat_string (s : string) (n : nat) : string :=
  match n with
  | O => ""
  | S n' => s ++ repeat_string s n'
  end.

(** The format field [{:<width}]: left-aligned, padded with spaces up
    to [width] characters, never truncated. *)
Definition ljust (width : nat) (s : string) : string :=
  s ++ repeat_string " " (width - py_len s).

(** [row_format = "{:<20} {:<10} {:<30}"] *)
Definition row_format (a b c : string) : string :=
  ljust 20 a ++ " " ++ ljust 10 b ++ " " ++ ljust 30 c.

Definition newline : string := String (ascii_of_nat 10) EmptyString.

Definition table_head : string :=
  newline ++ row_format "Component" "Status" "Details" ++ newline
  ++ repeat_string "-" 60 ++ newline.

Definition table_row (table : string) (r : ProbeResult) : string :=
  let '(comp, st, error) := r in
  table ++ row_format comp st (error_or_OK error) ++ newline.

Definition format_table (results : list ProbeResult) : string :=
  fold_left table_row results table_head.

(** Step 5 of the endpoint: the rows handed to [format_table]. *)
Definition table_data (cds : list ComponentDetail) : list ProbeResult :=
  map (fun d => (component d, status d, Some (details d))) cds.

(** The first statement of [draw_graph]: one colour per node of
    [G.nodes()], red for the members of [failed_nodes]. *)
Definition node_colors (G : DiGraph) (failed_nodes : list string) : list string :=
  map (fun node =>
         if existsb (String.eqb node) failed_nodes then "red" else "#7AC142")
      (nodes G).

(** Number of line feeds of a string. *)
Fixpoint count_newlines (s : string) : nat :=
  match s with
  | EmptyString => 0
  | String c s' =>
      (if Ascii.eqb c (ascii_of_nat 10) then 1 else 0) + count_newlines s'
  end.

Definition has_children (item : string * list string) : bool :=
  match snd item with
  | [] => false
  | _ :: _ => true
  end.

(** The outcome of the probe of [n] in the world [W]. *)
Definition probe_down (W : World) (n : string) : bool :=
  Qltb (failure_draw (random W n)) FAILURE_RATE.

(** * Properties *)

(** ** Scenarios of the specification, run on the model *)

Example scenario_ABCD :
  map component
      (component_details
         (perform_health_check (all_fail reverse_order)
                               [("A", ["B"; "C"]); ("B", ["D"])]))
  = ["A"; "B"; "C"; "D"].
Proof. reflexivity. Qed.

Example scenario_X :
  let r := perform_health_check (only_X_fails insertion_order) [("X", ["Y"])] in
  system_status r = "DOWN" /\ failed_components r = ["X"].
Proof. split; reflexivity. Qed.

(** ** The digraph *)

Lemma has_node_In (G : DiGraph) (n : string) :
  has_node G n = true <-> In n (nodes G).
Proof.
  unfold has_node. rewrite existsb_exists. split.
  - intros [x [Hx He]]. apply String.eqb_eq in He. now subst.
  - intros H. exists n. split; [assumption | apply String.eqb_refl].
Qed.

Lemma edge_eqb_eq (e f : string * string) : edge_eqb e f = true <-> e = f.
Proof.
  destruct e as [a b], f as [c d]. unfold edge_eqb. cbn.
  rewrite andb_true_iff, !String.eqb_eq. split.
  - intros [-> ->]. reflexivity.
  - intros H. inversion H. auto.
Qed.

Lemma has_edge_In (G : DiGraph) (u v : string) :
  has_edge G u v = true <-> In (u, v) (edges G).
Proof.
  unfold has_edge. rewrite existsb_exists. split.
  - intros [x [Hx He]]. apply edge_eqb_eq in He. now subst.
  - intros H. exists (u, v). split; [assumption | now apply edge_eqb_eq].
Qed.

Lemma add_node_present (n : string) (G : DiGraph) :
  In n (nodes G) -> add_node n G = G.
Proof.
  intros H. unfold add_node. apply has_node_In in H. now rewrite H.
Qed.

Lemma add_node_nodes (n x : string) (G : DiGraph) :
  In x (nodes (add_node n G)) <-> x = n \/ In x (nodes G).
Proof.
  unfold add_node. destruct (has_node G n) eqn:E.
  - apply has_node_In in E. split; [auto | intros [-> | H]; assumption].
  - cbn. rewrite in_app_iff. cbn. intuition.
Qed.

Lemma add_node_edges (n : string) (G : DiGraph) :
  edges (add_node n G) = edges G.
Proof. unfold add_node. now destruct (has_node G n). Qed.

Lemma add_node_NoDup (n : string) (G : DiGraph) :
  NoDup (nodes G) -> NoDup (nodes (add_node n G)).
Proof.
  intros H. unfold add_node. destruct (has_node G n) eqn:E; [assumption |].
  cbn. apply NoDup_app; [assumption | repeat constructor; intros [] |].
  intros x Hx [<- | []].
  apply has_node_In in Hx. congruence.
Qed.

Lemma add_edge_nodes (u v x : string) (G : DiGraph) :
  In x (nodes (add_edge u v G)) <-> x = u \/ x = v \/ In x (nodes G).
Proof.
  unfold add_edge.
  destruct (has_edge (add_node v (add_node u G)) u v); cbn;
    rewrite !add_node_nodes; intuition.
Qed.

Lemma add_edge_edges (u v : string) (e : string * string) (G : DiGraph) :
  In e (edges (add_edge u v G)) <-> e = (u, v) \/ In e (edges G).
Proof.
  unfold add_edge.
  destruct (has_edge (add_node v (add_node u G)) u v) eqn:E; cbn.
  - apply has_edge_In in E. rewrite !add_node_edges in *.
    split; [auto | intros [-> | H]; assumption].
  - rewrite in_app_iff, !add_node_edges. cbn. intuition.
Qed.

Lemma add_edge_present (u v : string) (G : DiGraph) :
  In u (nodes G) -> In v (nodes G) -> In (u, v) (edges G) ->
  add_edge u v G = G.
Proof.
  intros Hu Hv He. unfold add_edge.
  rewrite (add_node_present u G Hu), (add_node_present v G Hv).
  apply has_edge_In in He. now rewrite He.
Qed.

Lemma add_edge_well_formed (u v : string) (G : DiGraph) :
  well_formed G -> well_formed (add_edge u v G).
Proof.
  intros (Hn & He & Hends). split; [| split].
  - unfold add_edge.
    destruct (has_edge (add_node v (add_node u G)) u v); cbn;
      now apply add_node_NoDup, add_node_NoDup.
  - unfold add_edge.
    destruct (has_edge (add_node v (add_node u G)) u v) eqn:E; cbn;
      rewrite !add_node_edges; [assumption |].
    apply NoDup_app; [assumption | repeat constructor; intros [] |].
    intros x Hx [<- | []].
    assert (has_edge (add_node v (add_node u G)) u v = true); [| congruence].
    apply has_edge_In. now rewrite !add_node_edges.
  - intros a b Hab. apply add_edge_edges in Hab. rewrite !add_edge_nodes.
    destruct Hab as [Hab | Hab].
    + inversion Hab; subst. auto.
    + destruct (Hends a b Hab). auto.
Qed.

(** ** The graph builder *)

Lemma add_children_cons (p c : string) (cs : list string) (G : DiGraph) :
  add_children p (c :: cs) G = add_children p cs (add_edge p c G).
Proof. reflexivity. Qed.

Lemma add_children_app (p : string) (l l' : list string) (G : DiGraph) :
  add_children p (l ++ l') G = add_children p l' (add_children p l G).
Proof. unfold add_children. apply fold_left_app. Qed.

Lemma add_children_nodes (p : string) (cs : list string) :
  forall (G : DiGraph) (x : string),
    In x (nodes (add_children p cs G)) <->
    In x (nodes G) \/ (cs <> [] /\ x = p) \/ In x cs.
Proof.
  induction cs as [| c cs IH]; intros G x.
  - cbn. intuition.
  - rewrite add_children_cons, IH, add_edge_nodes. cbn. split.
    + intros [[-> | [-> | H]] | [[_ ->] | H]]; auto.
      all: right; left; split; [discriminate | reflexivity].
    + intros [H | [[_ ->] | [<- | H]]]; auto.
Qed.

Lemma add_children_edges (p : string) (cs : list string) :
  forall (G : DiGraph) (e : string * string),
    In e (edges (add_children p cs G)) <->
    In e (edges G) \/ exists c, In c cs /\ e = (p, c).
Proof.
  induction cs as [| c cs IH]; intros G e.
  - cbn. split; [auto | intros [H | [c [[] _]]]; assumption].
  - rewrite add_children_cons, IH, add_edge_edges. cbn. split.
    + intros [[-> | H] | [c' [Hc ->]]]; eauto.
    + intros [H | [c' [[<- | Hc] ->]]]; eauto.
Qed.

Lemma add_children_well_formed (p : string) (cs : list string) :
  forall G, well_formed G -> well_formed (add_children p cs G).
Proof.
  induction cs as [| c cs IH]; intros G H; [assumption |].
  rewrite add_children_cons. apply IH. now apply add_edge_well_formed.
Qed.

(** A child listed again is absorbed: the edge is already there. *)
Lemma add_children_repeat (p c : string) (l1 l2 l3 : list string) (G : DiGraph) :
  add_children p (l1 ++ c :: l2 ++ c :: l3) G =
  add_children p (l1 ++ c :: l2 ++ l3) G.
Proof.
  rewrite !add_children_app, !add_children_cons, !add_children_app.
  rewrite add_children_cons. f_equal.
  set (G1 := add_edge p c (add_children p l1 G)).
  apply add_edge_present.
  - apply add_children_nodes. left. apply add_edge_nodes. auto.
  - apply add_children_nodes. left. apply add_edge_nodes. auto.
  - apply add_children_edges. left. apply add_edge_edges. auto.
Qed.

Lemma build_from_nodes (rel : SystemRelationships) :
  forall (G : DiGraph) (x : string),
    In x (nodes (build_from G rel)) <->
    In x (nodes G) \/
    exists p cs, In (p, cs) rel /\ cs <> [] /\ (x = p \/ In x cs).
Proof.
  induction rel as [| [p cs] rel IH]; intros G x.
  - cbn. split; [auto | intros [H | (p & cs & [] & _)]; assumption].
  - cbn [build_from fold_left fst snd]. fold (build_from (add_children p cs G) rel).
    rewrite IH, add_children_nodes. split.
    + intros [[H | [[Hne ->] | H]] | (q & ds & Hq & Hne & Hx)]; auto.
      * right. exists p, cs. cbn. auto.
      * right. exists p, cs. cbn. repeat split; auto.
        intros ->. contradiction.
      * right. exists q, ds. cbn. auto.
    + intros [H | (q & ds & [Hq | Hq] & Hne & Hx)]; auto.
      * inversion Hq; subst. left. destruct Hx as [-> | Hx]; auto.
      * right. exists q, ds. auto.
Qed.

Lemma build_from_edges (rel : SystemRelationships) :
  forall (G : DiGraph) (e : string * string),
    In e (edges (build_from G rel)) <->
    In e (edges G) \/
    exists p cs c, In (p, cs) rel /\ In c cs /\ e = (p, c).
Proof.
  induction rel as [| [p cs] rel IH]; intros G e.
  - cbn. split; [auto | intros [H | (p & cs & c & [] & _)]; assumption].
  - cbn [build_from fold_left fst snd]. fold (build_from (add_children p cs G) rel).
    rewrite IH, add_children_edges. split.
    + intros [[H | (c & Hc & ->)] | (q & ds & c & Hq & Hc & ->)]; auto.
      * right. exists p, cs, c. cbn. auto.
      * right. exists q, ds, c. cbn. auto.
    + intros [H | (q & ds & c & [Hq | Hq] & Hc & ->)]; auto.
      * inversion Hq; subst. left. right. eauto.
      * right. exists q, ds, c. auto.
Qed.

Lemma build_from_well_formed (rel : SystemRelationships) :
  forall G, well_formed G -> well_formed (build_from G rel).
Proof.
  induction rel as [| [p cs] rel IH]; intros G H; [assumption |].
  cbn [build_from fold_left fst snd]. apply IH. now apply add_children_well_formed.
Qed.

Lemma build_from_app (rel rel' : SystemRelationships) (G : DiGraph) :
  build_from G (rel ++ rel') = build_from (build_from G rel) rel'.
Proof. unfold build_from. apply fold_left_app. Qed.

Lemma empty_graph_well_formed : well_formed empty_graph.
Proof.
  repeat split; try constructor; destruct H.
Qed.

Lemma create_dag_well_formed (rel : SystemRelationships) :
  well_formed (create_dag_from_json rel).
Proof. apply (build_from_well_formed rel), empty_graph_well_formed. Qed.

Lemma create_dag_nodes (rel : SystemRelationships) (x : string) :
  In x (nodes (create_dag_from_json rel)) <->
  exists p cs, In (p, cs) rel /\ cs <> [] /\ (x = p \/ In x cs).
Proof.
  change (create_dag_from_json rel) with (build_from empty_graph rel).
  rewrite build_from_nodes. cbn. intuition.
Qed.

Lemma create_dag_edges (rel : SystemRelationships) (e : string * string) :
  In e (edges (create_dag_from_json rel)) <->
  exists p cs c, In (p, cs) rel /\ In c cs /\ e = (p, c).
Proof.
  change (create_dag_from_json rel) with (build_from empty_graph rel).
  rewrite build_from_edges. cbn. intuition.
Qed.

(** ** The order of identifiers *)

Lemma compare_as_OT (a b : string) :
  String.compare a b = OrdersEx.String_as_OT.compare a b.
Proof.
  (* the two fixpoints have the same body, up to unfolding *)
  destruct a, b; reflexivity.
Qed.

Lemma slt_compare (a b : string) : slt a b <-> String.compare a b = Lt.
Proof.
  unfold slt, String.ltb. destruct (String.compare a b); intuition discriminate.
Qed.

Lemma slt_trans (a b c : string) : slt a b -> slt b c -> slt a c.
Proof.
  rewrite !slt_compare, !compare_as_OT.
  apply (@StrictOrder_Transitive _ _ OrdersEx.String_as_OT.lt_strorder).
Qed.

Lemma slt_irrefl (a : string) : ~ slt a a.
Proof.
  rewrite slt_compare, compare_as_OT.
  apply (@StrictOrder_Irreflexive _ _ OrdersEx.String_as_OT.lt_strorder).
Qed.

Lemma sle_slt_or_eq (a b : string) : sle a b <-> slt a b \/ a = b.
Proof.
  unfold sle, String.leb. rewrite slt_compare. split.
  - destruct (String.compare a b) eqn:E; try discriminate; intros _.
    + right. now apply String.compare_eq_iff.
    + now left.
  - intros [-> | ->]; [reflexivity |].
    destruct (String.compare b b) eqn:E; try reflexivity.
    exfalso. apply (slt_irrefl b). apply slt_compare.
    rewrite String.compare_antisym, E. reflexivity.
Qed.

Lemma sle_trans (a b c : string) : sle a b -> sle b c -> sle a c.
Proof.
  rewrite !sle_slt_or_eq. intros [H1 | ->] [H2 | ->]; auto.
  left. eapply slt_trans; eassumption.
Qed.

Lemma sle_total (a b : string) : sle a b \/ sle b a.
Proof. apply String.leb_total. Qed.

(** ** Sorting by component *)

Lemma insert_by_component_perm (d : ComponentDetail) (l : list ComponentDetail) :
  Permutation (insert_by_component d l) (d :: l).
Proof.
  induction l as [| x l IH]; cbn; [reflexivity |].
  destruct (String.leb (component d) (component x)); [reflexivity |].
  rewrite IH. apply perm_swap.
Qed.

Lemma sort_by_component_perm (l : list ComponentDetail) :
  Permutation (sort_by_component l) l.
Proof.
  induction l as [| x l IH]; cbn; [reflexivity |].
  rewrite insert_by_component_perm. now constructor.
Qed.

Lemma insert_by_component_sorted (d : ComponentDetail) (l : list ComponentDetail) :
  Sorted component_le l -> Sorted component_le (insert_by_component d l).
Proof.
  induction l as [| x l IH]; intros H; cbn.
  - repeat constructor.
  - destruct (String.leb (component d) (component x)) eqn:E.
    + constructor; [assumption | constructor; exact E].
    + inversion H as [| ? ? Hs Hhd]; subst.
      constructor; [now apply IH |].
      assert (Hxd : component_le x d).
      { destruct (sle_total (component d) (component x)) as [H1 | H1];
          [unfold sle in H1; congruence | exact H1]. }
      destruct l as [| y l]; cbn.
      * now constructor.
      * destruct (String.leb (component d) (component y)); constructor;
          [exact Hxd | now inversion Hhd].
Qed.

Lemma sort_by_component_sorted (l : list ComponentDetail) :
  Sorted component_le (sort_by_component l).
Proof.
  induction l as [| x l IH]; cbn; [constructor |].
  now apply insert_by_component_sorted.
Qed.

Lemma component_le_trans : Transitive component_le.
Proof. intros a b c. apply sle_trans. Qed.

(** With pairwise distinct keys, ascending is strictly ascending. *)
Lemma sorted_distinct_strict (l : list ComponentDetail) :
  Sorted component_le l -> NoDup (map component l) ->
  StronglySorted component_lt l.
Proof.
  intros Hs Hnd. apply (Sorted_StronglySorted component_le_trans) in Hs.
  induction Hs as [| a l Hs IH Hall]; [constructor |].
  cbn in Hnd. inversion Hnd as [| ? ? Hnotin Hnd']; subst.
  constructor; [now apply IH |].
  rewrite Forall_forall in *. intros x Hx.
  destruct (proj1 (sle_slt_or_eq _ _) (Hall x Hx)) as [Hlt | Heq]; [exact Hlt |].
  exfalso. apply Hnotin. rewrite Heq. now apply in_map.
Qed.

(** ** The aggregation loop *)

Lemma process_results_from (rs : list ProbeResult) :
  forall cds failed sys,
    fold_left process_result rs (cds, failed, sys) =
    (cds ++ map detail_of rs,
     failed ++ map node_of (filter is_down rs),
     if existsb is_down rs then "DOWN" else sys).
Proof.
  induction rs as [| [[node st] error] rs IH]; intros cds failed sys.
  - cbn. now rewrite !app_nil_r.
  - cbn [fold_left process_result filter existsb map].
    replace (is_down (node, st, error)) with (String.eqb st "DOWN") by reflexivity.
    destruct (String.eqb st "DOWN"); rewrite IH, <- !app_assoc;
      cbn [orb]; destruct (existsb is_down rs); reflexivity.
Qed.

Lemma process_results_eq (rs : list ProbeResult) :
  process_results rs =
  (map detail_of rs, map node_of (filter is_down rs),
   if existsb is_down rs then "DOWN" else "UP").
Proof. unfold process_results. now rewrite process_results_from. Qed.

Lemma report_component_details (W : World) (rel : SystemRelationships) :
  component_details (perform_health_check W rel) =
  sort_by_component (map detail_of (raw_results W (create_dag_from_json rel))).
Proof. unfold perform_health_check. now rewrite process_results_eq. Qed.

Lemma report_failed_components (W : World) (rel : SystemRelationships) :
  failed_components (perform_health_check W rel) =
  map node_of (filter is_down (raw_results W (create_dag_from_json rel))).
Proof. unfold perform_health_check. now rewrite process_results_eq. Qed.

Lemma report_system_status (W : World) (rel : SystemRelationships) :
  system_status (perform_health_check W rel) =
  if existsb is_down (raw_results W (create_dag_from_json rel))
  then "DOWN" else "UP".
Proof. unfold perform_health_check. now rewrite process_results_eq. Qed.

(** ** The probe and the raw results *)

Lemma Qltb_lt (x y : Q) : Qltb x y = true <-> x < y.
Proof.
  unfold Qltb. rewrite negb_true_iff, <- not_true_iff_false, Qle_bool_iff.
  split; [apply Qnot_le_lt | apply Qlt_not_le].
Qed.

Lemma probe_node (n : string) (d : Draws) :
  node_of (check_component_health n d) = n.
Proof. unfold check_component_health. now destruct (Qltb _ _). Qed.

Lemma probe_cases (n : string) (d : Draws) :
  check_component_health n d =
    (n, "DOWN", Some "Service unreachable (Simulated Timeout)") \/
  check_component_health n d = (n, "UP", None).
Proof. unfold check_component_health. destruct (Qltb _ _); auto. Qed.

Lemma raw_results_nodes (W : World) (G : DiGraph) :
  map node_of (raw_results W G) = set_iter (hash_order W) (nodes G).
Proof.
  unfold raw_results. rewrite map_map.
  rewrite (map_ext _ (fun n => n)); [apply map_id |].
  intros n. apply probe_node.
Qed.

Lemma raw_results_probe (W : World) (G : DiGraph) (r : ProbeResult) :
  In r (raw_results W G) ->
  exists n, r = check_component_health n (random W n).
Proof.
  unfold raw_results. rewrite in_map_iff. intros (n & <- & _). now exists n.
Qed.

Lemma component_detail_of (rs : list ProbeResult) :
  map component (map detail_of rs) = map node_of rs.
Proof. rewrite map_map. reflexivity. Qed.

Lemma detail_down_detail_of (rs : list ProbeResult) :
  filter detail_down (map detail_of rs) = map detail_of (filter is_down rs).
Proof.
  induction rs as [| r rs IH]; [reflexivity |].
  cbn [map filter].
  replace (detail_down (detail_of r)) with (is_down r) by reflexivity.
  destruct (is_down r); cbn [map]; now rewrite IH.
Qed.

Lemma set_iter_perm (order : SetIteration) (xs : list string) :
  NoDup xs -> Permutation (set_iter order xs) xs.
Proof.
  intros H. apply NoDup_Permutation; [apply set_iter_NoDup | exact H |].
  apply set_iter_In.
Qed.

Lemma set_iter_nil (order : SetIteration) : set_iter order [] = [].
Proof.
  destruct (set_iter order []) as [| x l] eqn:E; [reflexivity |].
  exfalso. apply (set_iter_In order [] x). rewrite E. now left.
Qed.

Lemma filter_perm {A : Type} (f : A -> bool) (l l' : list A) :
  Permutation l l' -> Permutation (filter f l) (filter f l').
Proof.
  induction 1 as [| x l l' _ IH | x y l | l l' l'' _ IH1 _ IH2]; cbn.
  - constructor.
  - destruct (f x); [now constructor | exact IH].
  - destruct (f x), (f y); try reflexivity. apply perm_swap.
  - now transitivity (filter f l').
Qed.

Lemma filter_NoDup_map {A B : Type} (g : A -> B) (f : A -> bool) (l : list A) :
  NoDup (map g l) -> NoDup (map g (filter f l)).
Proof.
  induction l as [| x l IH]; cbn; [auto |].
  intros H. inversion H as [| ? ? Hx Hl]; subst.
  destruct (f x); cbn; [| now apply IH].
  constructor; [| now apply IH].
  intros Hin. apply Hx. rewrite in_map_iff in *.
  destruct Hin as (y & Hy & Hin). exists y. split; [exact Hy |].
  now apply filter_In in Hin.
Qed.

(** The identifiers of the report are those of the graph, each once. *)
Lemma report_components_perm (W : World) (rel : SystemRelationships) :
  Permutation
    (map component (component_details (perform_health_check W rel)))
    (nodes (create_dag_from_json rel)).
Proof.
  rewrite report_component_details.
  rewrite (Permutation_map component (sort_by_component_perm _)).
  rewrite component_detail_of, raw_results_nodes.
  apply set_iter_perm. apply create_dag_well_formed.
Qed.

Lemma report_sorted (W : World) (rel : SystemRelationships) :
  StronglySorted component_lt (component_details (perform_health_check W rel)).
Proof.
  apply sorted_distinct_strict.
  - rewrite report_component_details. apply sort_by_component_sorted.
  - apply (Permutation_NoDup (Permutation_sym (report_components_perm W rel))).
    apply create_dag_well_formed.
Qed.

(** * The claims *)

(** ** C1: the failed components and the sorted details *)

(** C1, as stated, fails.  Over the mapping [{"A": ["B"]}], when the
    node set iterates as B, A and both probes report DOWN, the loop
    appends B and then A to [failed_components]; sorting afterwards
    reorders [component_details] only, whose DOWN subsequence is A, B. *)
Lemma failed_components_not_sorted_subsequence :
  let r := perform_health_check (all_fail reverse_order) [("A", ["B"])] in
  failed_components r = ["B"; "A"] /\
  map component (filter detail_down (component_details r)) = ["A"; "B"] /\
  failed_components r <>
    map component (filter detail_down (component_details r)).
Proof.
  cbv zeta. repeat split. intros H. vm_compute in H. discriminate H.
Qed.

(** C1, amended.  [failed_components] lists exactly the components of
    [component_details] whose status is DOWN, each once: it is a
    permutation of that subsequence, without repetition.  Its order is
    the order in which the node set was iterated, the one the probe
    results were folded in. *)
Theorem failed_components_permutation (W : World) (rel : SystemRelationships) :
  let G := create_dag_from_json rel in
  let r := perform_health_check W rel in
  Permutation (failed_components r)
              (map component (filter detail_down (component_details r))) /\
  NoDup (failed_components r) /\
  failed_components r =
    filter (fun n => is_down (check_component_health n (random W n)))
           (set_iter (hash_order W) (nodes G)).
Proof.
  cbv zeta. rewrite report_failed_components, report_component_details.
  split; [| split].
  - rewrite (filter_perm detail_down _ _ (sort_by_component_perm _)).
    rewrite detail_down_detail_of, component_detail_of. reflexivity.
  - apply filter_NoDup_map. rewrite raw_results_nodes. apply set_iter_NoDup.
  - unfold raw_results.
    induction (set_iter (hash_order W) (nodes (create_dag_from_json rel)))
      as [| n l IH]; [reflexivity |].
    cbn [map filter].
    destruct (is_down (check_component_health n (random W n)));
      cbn [map]; rewrite IH; [rewrite probe_node |]; reflexivity.
Qed.

(** ** C2: the node set of the built graph *)

(** C2.  The builder misses the keys that list no child.  The endpoint
    is documented to check "all unique components defined in the input
    DAG relationships", but a node is only ever created by [add_edge], in
    the loop over the children: for [{"A": ["B"], "C": []}] the listed
    component C never becomes a node, and is never probed. *)
Lemma childless_key_is_not_a_node :
  let rel := [("A", ["B"]); ("C", [])] in
  In "C" (map fst rel) /\
  nodes (create_dag_from_json rel) = ["A"; "B"] /\
  ~ In "C" (nodes (create_dag_from_json rel)).
Proof.
  cbv zeta. split; [| split].
  - cbn. auto.
  - reflexivity.
  - intros H. vm_compute in H. intuition discriminate.
Qed.

(** With [{"db": [], "cache": []}] nothing is probed: the report is
    "UP" and empty even when every probe would fail. *)
Example childless_components_are_not_probed :
  let rel := [("db", []); ("cache", [])] in
  nodes (create_dag_from_json rel) = [] /\
  perform_health_check (all_fail insertion_order) rel =
    mkHealthReport "UP" [] [] (Some "").
Proof. split; reflexivity. Qed.

(** The nodes the builder does create: the keys that list at least one
    child, and all identifiers appearing in a child list. *)
Theorem node_set_of_built_graph (rel : SystemRelationships) (x : string) :
  In x (nodes (create_dag_from_json rel)) <->
  (exists cs, In (x, cs) rel /\ cs <> []) \/
  (exists p cs, In (p, cs) rel /\ In x cs).
Proof.
  rewrite create_dag_nodes. split.
  - intros (p & cs & Hin & Hne & [-> | Hx]); [left | right]; eauto.
  - intros [(cs & Hin & Hne) | (p & cs & Hin & Hx)].
    + exists x, cs. auto.
    + exists p, cs. repeat split; auto. intros ->. contradiction.
Qed.

(** ** C3: the system status *)

(** C3.  [system_status] is "DOWN" exactly when some probe result has
    status DOWN, which is exactly when [failed_components] is not empty;
    it is "UP" otherwise; and two runs whose probe results are the same
    set report the same status. *)
Theorem system_status_iff_some_down (W : World) (rel : SystemRelationships) :
  let rs := raw_results W (create_dag_from_json rel) in
  let r := perform_health_check W rel in
  (system_status r = "DOWN" <->
     exists p, In p rs /\ status_of p = "DOWN") /\
  (system_status r = "DOWN" <-> failed_components r <> []) /\
  (system_status r = "DOWN" \/ system_status r = "UP") /\
  forall (W' : World) (rel' : SystemRelationships),
    same_set rs (raw_results W' (create_dag_from_json rel')) ->
    system_status (perform_health_check W' rel') = system_status r.
Proof.
  cbv zeta. rewrite report_system_status, report_failed_components.
  set (rs := raw_results W (create_dag_from_json rel)).
  assert (Hex : forall l, existsb is_down l = true <->
                          exists p, In p l /\ status_of p = "DOWN").
  { intros l. rewrite existsb_exists. unfold is_down.
    split; intros (p & Hin & Hp); exists p; split; auto;
      now apply String.eqb_eq. }
  split; [| split; [| split]].
  - rewrite <- Hex. destruct (existsb is_down rs); intuition discriminate.
  - induction rs as [| p l IH]; cbn.
    + intuition discriminate.
    + destruct (is_down p); cbn; [intuition discriminate | exact IH].
  - destruct (existsb is_down rs); auto.
  - intros W' rel' Hsame. rewrite report_system_status.
    set (rs' := raw_results W' (create_dag_from_json rel')) in *.
    assert (E : existsb is_down rs' = existsb is_down rs).
    { apply eq_true_iff_eq. rewrite !Hex.
      split; intros (p & Hin & Hp); exists p; split; auto; now apply Hsame. }
    now rewrite E.
Qed.

(** Witness of C3 on [{"X": ["Y"]}], where only the probe of X fails. *)
Lemma system_status_iff_some_down_witness :
  system_status
    (perform_health_check (only_X_fails reverse_order) [("X", ["Y"])])
  = system_status
      (perform_health_check (only_X_fails insertion_order) [("X", ["Y"])]).
Proof.
  apply (system_status_iff_some_down (only_X_fails insertion_order)
                                     [("X", ["Y"])]).
  intros p. vm_compute. tauto.
Defined.

(** ** C4: one entry per node *)

(** C4.  The components of [component_details] are the nodes of the
    graph, each exactly once: the node list has no repetition, the
    components are a rearrangement of it, the two lengths agree, and an
    identifier occurs once among the components if it is a node and not
    at all otherwise. *)
Theorem one_detail_per_node (W : World) (rel : SystemRelationships) :
  let G := create_dag_from_json rel in
  let r := perform_health_check W rel in
  NoDup (nodes G) /\
  Permutation (map component (component_details r)) (nodes G) /\
  length (component_details r) = length (nodes G) /\
  forall n, count_occ string_dec (map component (component_details r)) n =
            if has_node G n then 1%nat else 0%nat.
Proof.
  cbv zeta.
  pose proof (report_components_perm W rel) as HP.
  destruct (create_dag_well_formed rel) as (Hnd & _).
  split; [exact Hnd | split; [exact HP | split]].
  - rewrite <- (Permutation_length HP). now rewrite length_map.
  - intros n. rewrite (Permutation_count_occ string_dec) in HP. rewrite HP.
    destruct (has_node (create_dag_from_json rel) n) eqn:E.
    + apply NoDup_count_occ'; [exact Hnd | now apply has_node_In].
    + apply count_occ_not_In. rewrite <- has_node_In. congruence.
Qed.

(** ** C5: the details are sorted *)

(** C5.  When the graph has at least one node, [component_details] is
    not empty and strictly ascending in the lexicographic order of the
    component identifiers: every entry is strictly below all later ones. *)
Theorem component_details_strictly_sorted
    (W : World) (rel : SystemRelationships) :
  nodes (create_dag_from_json rel) <> [] ->
  let r := perform_health_check W rel in
  component_details r <> [] /\
  StronglySorted component_lt (component_details r).
Proof.
  intros Hne. cbv zeta. split; [| apply report_sorted].
  intros E. apply Hne.
  pose proof (report_components_perm W rel) as HP. rewrite E in HP.
  now apply Permutation_nil in HP.
Qed.

Lemma component_details_strictly_sorted_witness :
  let r := perform_health_check (all_fail reverse_order)
                                [("A", ["B"; "C"]); ("B", ["D"])] in
  component_details r <> [] /\
  StronglySorted component_lt (component_details r).
Proof.
  apply (component_details_strictly_sorted
           (all_fail reverse_order) [("A", ["B"; "C"]); ("B", ["D"])]).
  vm_compute. discriminate.
Defined.

(** ** C6: the empty mapping *)

(** C6.  The empty mapping builds the empty graph, and the endpoint
    returns a report for it: status "UP", no details, no failed
    component, and the image the renderer draws for the empty graph. *)
Theorem empty_mapping_report (W : World) :
  create_dag_from_json [] = empty_graph /\
  perform_health_check W [] =
    mkHealthReport "UP" [] [] (Some (draw_graph W empty_graph [])).
Proof.
  split; [reflexivity |].
  unfold perform_health_check, raw_results. cbn [create_dag_from_json fold_left].
  cbn [nodes empty_graph]. rewrite set_iter_nil. reflexivity.
Qed.

(** ** C7: the builder is deterministic and idempotent *)

Lemma create_dag_nodes_endpoints (rel : SystemRelationships) (x : string) :
  In x (nodes (create_dag_from_json rel)) <->
  exists y, In (x, y) (edges (create_dag_from_json rel)) \/
            In (y, x) (edges (create_dag_from_json rel)).
Proof.
  split.
  - intros Hx. apply create_dag_nodes in Hx.
    destruct Hx as (p & cs & Hin & Hne & [-> | Hx]).
    + destruct cs as [| c cs]; [contradiction |].
      exists c. left. apply create_dag_edges. exists p, (c :: cs), c.
      cbn. auto.
    + exists p. right. apply create_dag_edges. exists p, cs, x. auto.
  - intros (y & [H | H]);
      now apply (proj2 (proj2 (create_dag_well_formed rel))) in H.
Qed.

Lemma listed_pair_single_edge
    (rel : SystemRelationships) (p c : string) (cs : list string) :
  In (p, cs) rel -> In c cs ->
  In (p, c) (edges (create_dag_from_json rel)) /\
  count_occ edge_dec (edges (create_dag_from_json rel)) (p, c) = 1%nat.
Proof.
  intros Hin Hc.
  assert (He : In (p, c) (edges (create_dag_from_json rel))).
  { apply create_dag_edges. exists p, cs, c. auto. }
  split; [exact He |].
  apply NoDup_count_occ'; [apply create_dag_well_formed | exact He].
Qed.

(** C7.  The graph is a function of the mapping alone, and a set: its
    edges are exactly the listed pairs [parent -> child], its nodes
    exactly the ends of its edges, and no node and no edge is stored
    twice.  Every listed pair is present as one single edge; a child
    listed again under the same parent leaves the graph as it is with the
    child listed once, with that one edge in it; and two mappings with
    the same entries (in particular one mapping, built twice) give the
    same node set and the same edge set. *)
Theorem builder_idempotent (rel : SystemRelationships) :
  let G := create_dag_from_json rel in
  NoDup (nodes G) /\ NoDup (edges G) /\
  (forall e, In e (edges G) <->
             exists p cs c, In (p, cs) rel /\ In c cs /\ e = (p, c)) /\
  (forall x, In x (nodes G) <->
             exists y, In (x, y) (edges G) \/ In (y, x) (edges G)) /\
  (forall p cs c,
      In (p, cs) rel -> In c cs ->
      In (p, c) (edges G) /\
      count_occ edge_dec (edges G) (p, c) = 1%nat) /\
  (forall pre post p c l1 l2 l3,
      rel = pre ++ (p, l1 ++ c :: l2 ++ c :: l3) :: post ->
      G = create_dag_from_json (pre ++ (p, l1 ++ c :: l2 ++ l3) :: post) /\
      In (p, c) (edges G) /\
      count_occ edge_dec (edges G) (p, c) = 1%nat) /\
  (forall rel',
      same_set rel rel' ->
      same_set (nodes G) (nodes (create_dag_from_json rel')) /\
      same_set (edges G) (edges (create_dag_from_json rel'))).
Proof.
  cbv zeta. destruct (create_dag_well_formed rel) as (Hn & He & _).
  split; [exact Hn | split; [exact He |]].
  split; [apply create_dag_edges |].
  split; [apply create_dag_nodes_endpoints |].
  split; [intros p cs c; apply listed_pair_single_edge |].
  split.
  - intros pre post p c l1 l2 l3 E. split.
    + rewrite E.
      change (build_from empty_graph
                (pre ++ (p, l1 ++ c :: l2 ++ c :: l3) :: post)
              = build_from empty_graph
                  (pre ++ (p, l1 ++ c :: l2 ++ l3) :: post)).
      rewrite !build_from_app. cbn [build_from fold_left fst snd].
      now rewrite add_children_repeat.
    + apply (listed_pair_single_edge rel p c (l1 ++ c :: l2 ++ c :: l3)).
      * rewrite E. apply in_elt.
      * apply in_elt.
  - intros rel' Hsame. split.
    + intros x. rewrite !create_dag_nodes.
      split; intros (p & cs & Hin & H); exists p, cs; split; auto;
        now apply Hsame.
    + intros e. rewrite !create_dag_edges.
      split; intros (p & cs & c & Hin & H); exists p, cs, c; split; auto;
        now apply Hsame.
Qed.

(** [{"A": ["B", "C", "B"], "B": ["D"]}]: the three edges, A -> B once. *)
Lemma builder_idempotent_witness :
  let G := create_dag_from_json [("A", ["B"; "C"; "B"]); ("B", ["D"])] in
  nodes G = ["A"; "B"; "C"; "D"] /\
  edges G = [("A", "B"); ("A", "C"); ("B", "D")] /\
  G = create_dag_from_json [("A", ["B"; "C"]); ("B", ["D"])] /\
  In ("A", "B") (edges G) /\
  count_occ edge_dec (edges G) ("A", "B") = 1%nat.
Proof.
  cbv zeta. split; [reflexivity | split; [reflexivity |]].
  apply (proj1 (proj2 (proj2 (proj2 (proj2 (proj2
           (builder_idempotent [("A", ["B"; "C"; "B"]); ("B", ["D"])]))))))
           [] [("B", ["D"])] "A" "B" [] ["C"] []).
  reflexivity.
Defined.

(** ** C8: the probe *)

(** C8.  For a draw [k / 2^53] of [random.random()], being below
    [FAILURE_RATE] is being below 0.15; below it the probe returns the
    identifier with "DOWN" and the fixed detail, otherwise it returns the
    identifier with "UP" and no detail. *)
Theorem probe_outcome (node_id : string) (lat k : Z) :
  (0 <= k < 2 ^ 53)%Z ->
  let d := mkDraws lat (k # 2 ^ 53) in
  (failure_draw d < FAILURE_RATE <-> failure_draw d < 15 # 100) /\
  (failure_draw d < 15 # 100 ->
     check_component_health node_id d =
       (node_id, "DOWN", Some "Service unreachable (Simulated Timeout)")) /\
  (~ failure_draw d < 15 # 100 ->
     check_component_health node_id d = (node_id, "UP", None)).
Proof.
  intros Hk. cbv zeta. cbn [failure_draw].
  assert (E : k # 2 ^ 53 < FAILURE_RATE <-> k # 2 ^ 53 < 15 # 100).
  { unfold Qlt, FAILURE_RATE. cbn [Qnum Qden].
    change (Z.pos (2 ^ 55)) with 36028797018963968%Z.
    change (Z.pos (2 ^ 53)) with 9007199254740992%Z.
    lia. }
  split; [exact E | split]; intros H; unfold check_component_health;
    cbn [failure_draw].
  - rewrite <- E, <- Qltb_lt in H. now rewrite H.
  - rewrite <- E, <- Qltb_lt in H. now destruct (Qltb (k # 2 ^ 53) FAILURE_RATE).
Qed.

Lemma probe_outcome_witness :
  check_component_health "db" (mkDraws 120 (1351079888211148 # 2 ^ 53)) =
    ("db", "DOWN", Some "Service unreachable (Simulated Timeout)") /\
  check_component_health "db" (mkDraws 120 (1351079888211149 # 2 ^ 53)) =
    ("db", "UP", None).
Proof.
  split.
  - apply (probe_outcome "db" 120 1351079888211148); [lia |].
    vm_compute. reflexivity.
  - apply (probe_outcome "db" 120 1351079888211149); [lia |].
    vm_compute. discriminate.
Defined.

(** ** C9: self-loops and cycles *)

(** C9.  The builder has no failure path: it yields a graph for every
    mapping.  Every listed pair, a key listing itself or a pair closing
    a cycle included, becomes an edge as given, and both its endpoints
    occur exactly once among the nodes. *)
Theorem cycles_accepted
    (rel : SystemRelationships) (p c : string) (cs : list string) :
  In (p, cs) rel -> In c cs ->
  let G := create_dag_from_json rel in
  In (p, c) (edges G) /\
  count_occ string_dec (nodes G) p = 1%nat /\
  count_occ string_dec (nodes G) c = 1%nat /\
  well_formed G.
Proof.
  intros Hin Hc. cbv zeta.
  pose proof (create_dag_well_formed rel) as Hwf.
  assert (He : In (p, c) (edges (create_dag_from_json rel))).
  { apply create_dag_edges. exists p, cs, c. auto. }
  destruct (proj2 (proj2 Hwf) p c He) as [Hp Hc'].
  split; [exact He | split; [| split; [| exact Hwf]]];
    now apply NoDup_count_occ'; [apply Hwf |].
Qed.

(** A self-loop on A and the cycle B, C, B. *)
Lemma cycles_accepted_witness :
  let G := create_dag_from_json [("A", ["A"]); ("B", ["C"]); ("C", ["B"])] in
  (In ("A", "A") (edges G) /\
   count_occ string_dec (nodes G) "A" = 1%nat /\
   count_occ string_dec (nodes G) "A" = 1%nat /\
   well_formed G) /\
  (In ("C", "B") (edges G) /\
   count_occ string_dec (nodes G) "C" = 1%nat /\
   count_occ string_dec (nodes G) "B" = 1%nat /\
   well_formed G).
Proof.
  split.
  - apply (cycles_accepted [("A", ["A"]); ("B", ["C"]); ("C", ["B"])]
                           "A" "A" ["A"]); cbn; auto.
  - apply (cycles_accepted [("A", ["A"]); ("B", ["C"]); ("C", ["B"])]
                           "C" "B" ["B"]); cbn; auto.
Defined.

(** ** C10: the details field *)

(** C10.  In every entry of [component_details] the [details] field is
    a non-empty string: "OK" when the status is "UP", and "Service
    unreachable (Simulated Timeout)" when the status is "DOWN"; the
    status is one of the two. *)
Theorem details_never_empty (W : World) (rel : SystemRelationships) :
  Forall
    (fun d =>
       details d <> "" /\
       (status d = "UP" \/ status d = "DOWN") /\
       (status d = "UP" -> details d = "OK") /\
       (status d = "DOWN" ->
          details d = "Service unreachable (Simulated Timeout)"))
    (component_details (perform_health_check W rel)).
Proof.
  rewrite report_component_details.
  apply (Permutation_Forall (Permutation_sym (sort_by_component_perm _))).
  apply Forall_forall. intros d Hd.
  apply in_map_iff in Hd. destruct Hd as (r & <- & Hr).
  apply raw_results_probe in Hr. destruct Hr as (n & ->).
  destruct (probe_cases n (random W n)) as [-> | ->]; cbn;
    repeat split; auto; discriminate.
Qed.

Lemma details_never_empty_witness :
  map details
      (component_details
         (perform_health_check (only_X_fails reverse_order) [("X", ["Y"])]))
  = ["Service unreachable (Simulated Timeout)"; "OK"] /\
  Forall
    (fun d =>
       details d <> "" /\
       (status d = "UP" \/ status d = "DOWN") /\
       (status d = "UP" -> details d = "OK") /\
       (status d = "DOWN" ->
          details d = "Service unreachable (Simulated Timeout)"))
    (component_details
       (perform_health_check (only_X_fails reverse_order) [("X", ["Y"])])).
Proof.
  split; [reflexivity |].
  apply (details_never_empty (only_X_fails reverse_order) [("X", ["Y"])]).
Defined.

(** * Further properties of the code *)

(** ** The built graph *)

(** X1.  The edges of the built graph are exactly the listed pairs:
    [u -> v] is an edge if and only if the mapping has [u] as a key
    whose child list contains [v].  No edge is reversed or invented. *)
Theorem edge_set_of_built_graph
    (rel : SystemRelationships) (u v : string) :
  In (u, v) (edges (create_dag_from_json rel)) <->
  exists cs, In (u, cs) rel /\ In v cs.
Proof.
  rewrite create_dag_edges. split.
  - intros (p & cs & c & Hin & Hc & E). inversion E; subst. eauto.
  - intros (cs & Hin & Hc). exists u, cs, v. auto.
Qed.

(** X2.  The built graph has no isolated node: every node is the
    source or the target of an edge, and both ends of every edge are
    nodes. *)
Theorem built_graph_has_no_isolated_node (rel : SystemRelationships) :
  let G := create_dag_from_json rel in
  (forall n, In n (nodes G) ->
             exists m, In (n, m) (edges G) \/ In (m, n) (edges G)) /\
  (forall u v, In (u, v) (edges G) -> In u (nodes G) /\ In v (nodes G)).
Proof.
  cbv zeta. split.
  - intros n Hn. apply create_dag_nodes in Hn.
    destruct Hn as (p & cs & Hin & Hne & [-> | Hx]).
    + destruct cs as [| c cs]; [contradiction |].
      exists c. left. apply create_dag_edges. exists p, (c :: cs), c.
      cbn. auto.
    + exists p. right. apply create_dag_edges. exists p, cs, n. auto.
  - apply create_dag_well_formed.
Qed.

Lemma built_graph_has_no_isolated_node_witness :
  exists m,
    In ("D", m) (edges (create_dag_from_json [("A", ["B"; "C"]); ("B", ["D"])]))
    \/ In (m, "D") (edges (create_dag_from_json [("A", ["B"; "C"]); ("B", ["D"])])).
Proof.
  apply (built_graph_has_no_isolated_node [("A", ["B"; "C"]); ("B", ["D"])]).
  cbn. auto.
Defined.

Lemma build_from_childless (rel : SystemRelationships) :
  forall G, build_from G (filter has_children rel) = build_from G rel.
Proof.
  induction rel as [| [p cs] rel IH]; intros G; [reflexivity |].
  destruct cs as [| c cs]; cbn [filter has_children snd].
  - cbn [build_from fold_left fst snd add_children]. apply IH.
  - cbn [build_from fold_left fst snd]. apply IH.
Qed.

(** X3.  Entries with an empty child list have no effect on the graph:
    removing them from the mapping builds the same graph. *)
Theorem childless_entries_are_ignored (rel : SystemRelationships) :
  create_dag_from_json (filter has_children rel) = create_dag_from_json rel.
Proof. apply (build_from_childless rel empty_graph). Qed.






(** ** The report and the probes *)

Lemma is_down_probe (W : World) (n : string) :
  is_down (check_component_health n (random W n)) = probe_down W n.
Proof.
  unfold probe_down, check_component_health.
  now destruct (Qltb (failure_draw (random W n)) FAILURE_RATE).
Qed.

Lemma raw_results_In (W : World) (G : DiGraph) (r : ProbeResult) :
  In r (raw_results W G) <->
  exists n, In n (nodes G) /\ r = check_component_health n (random W n).
Proof.
  unfold raw_results. rewrite in_map_iff.
  split; intros (n & H1 & H2).
  - exists n. split; [now apply (set_iter_In (hash_order W)) | now symmetry].
  - exists n. split; [now symmetry | now apply (set_iter_In (hash_order W))].
Qed.

Lemma failed_components_In (W : World) (rel : SystemRelationships) (n : string) :
  In n (failed_components (perform_health_check W rel)) <->
  In n (nodes (create_dag_from_json rel)) /\ probe_down W n = true.
Proof.
  rewrite report_failed_components, in_map_iff. split.
  - intros (r & <- & Hr). apply filter_In in Hr. destruct Hr as [Hr Hd].
    apply raw_results_In in Hr. destruct Hr as (m & Hm & ->).
    rewrite probe_node. rewrite is_down_probe in Hd. auto.
  - intros [Hn Hd]. exists (check_component_health n (random W n)).
    split; [apply probe_node |]. apply filter_In. split.
    + apply raw_results_In. eauto.
    + now rewrite is_down_probe.
Qed.

Lemma sorted_perm_unique (l : list ComponentDetail) :
  forall l',
    StronglySorted component_lt l -> StronglySorted component_lt l' ->
    Permutation l l' -> l = l'.
Proof.
  induction l as [| a l IH]; intros l' Hs Hs' HP.
  - apply Permutation_nil in HP. now subst.
  - destruct l' as [| b l'];
      [apply Permutation_sym, Permutation_nil in HP; discriminate |].
    inversion Hs as [| ? ? Hsl Ha]; subst.
    inversion Hs' as [| ? ? Hsl' Hb]; subst.
    rewrite Forall_forall in Ha, Hb.
    assert (E : a = b).
    { assert (Hab : In a (b :: l'))
        by (apply (Permutation_in _ HP); now left).
      assert (Hba : In b (a :: l))
        by (apply (Permutation_in _ (Permutation_sym HP)); now left).
      destruct Hab as [E | Hab]; [now symmetry |].
      destruct Hba as [E | Hba]; [exact E |].
      exfalso. apply (slt_irrefl (component a)).
      apply (slt_trans _ (component b)); [now apply Ha | now apply Hb]. }
    subst b. f_equal. apply IH; auto. now apply Permutation_cons_inv in HP.
Qed.

Lemma existsb_perm {A : Type} (f : A -> bool) (l l' : list A) :
  Permutation l l' -> existsb f l = existsb f l'.
Proof.
  intros HP. apply eq_true_iff_eq. rewrite !existsb_exists.
  split; intros (x & Hx & Hf); exists x; split; auto.
  - now apply (Permutation_in _ HP).
  - now apply (Permutation_in _ (Permutation_sym HP)).
Qed.

Lemma strongly_sorted_details (l : list ComponentDetail) :
  StronglySorted slt (map component l) -> StronglySorted component_lt l.
Proof.
  induction l as [| a l IH]; intros H; [constructor |].
  cbn in H. inversion H as [| ? ? Hs Hall]; subst.
  constructor; [now apply IH |].
  rewrite Forall_forall in *. intros x Hx. apply Hall. now apply in_map.
Qed.

(** X5.  The entries of [component_details] are exactly the outcomes
    of the probes of the nodes: an entry is in the report if and only if
    it is the identifier, status and detail that the probe of some node
    of the graph returned.  Outcomes are never attached to another
    identifier. *)
Theorem details_are_the_probe_outcomes
    (W : World) (rel : SystemRelationships) (d : ComponentDetail) :
  In d (component_details (perform_health_check W rel)) <->
  exists n,
    In n (nodes (create_dag_from_json rel)) /\
    d = detail_of (check_component_health n (random W n)).
Proof.
  rewrite report_component_details.
  split.
  - intros Hd. apply (Permutation_in _ (sort_by_component_perm _)) in Hd.
    apply in_map_iff in Hd. destruct Hd as (r & <- & Hr).
    apply raw_results_In in Hr. destruct Hr as (n & Hn & ->). eauto.
  - intros (n & Hn & ->).
    apply (Permutation_in _ (Permutation_sym (sort_by_component_perm _))).
    apply in_map. apply raw_results_In. eauto.
Qed.

(** X6.  End to end: a component is in [failed_components] if and only
    if it is a node whose failure draw is below [FAILURE_RATE], and the
    system is "UP" if and only if the draw of every node is at least
    [FAILURE_RATE]. *)
Theorem status_from_the_draws (W : World) (rel : SystemRelationships) :
  let G := create_dag_from_json rel in
  let r := perform_health_check W rel in
  (forall n, In n (failed_components r) <->
             In n (nodes G) /\ failure_draw (random W n) < FAILURE_RATE) /\
  (system_status r = "UP" <->
   forall n, In n (nodes G) -> FAILURE_RATE <= failure_draw (random W n)).
Proof.
  cbv zeta. split.
  - intros n. rewrite failed_components_In. unfold probe_down.
    now rewrite Qltb_lt.
  - rewrite report_system_status.
    destruct (existsb is_down (raw_results W (create_dag_from_json rel))) eqn:E.
    + split; [discriminate |]. intros Hall. exfalso.
      apply existsb_exists in E. destruct E as (r & Hr & Hd).
      apply raw_results_In in Hr. destruct Hr as (n & Hn & ->).
      rewrite is_down_probe in Hd. apply Qltb_lt in Hd.
      apply (Qlt_not_le _ _ Hd). now apply Hall.
    + split; [| reflexivity]. intros _ n Hn.
      apply Qnot_lt_le. intros Hlt. apply Qltb_lt in Hlt.
      apply not_true_iff_false in E. apply E. apply existsb_exists.
      exists (check_component_health n (random W n)). split.
      * apply raw_results_In. eauto.
      * now rewrite is_down_probe.
Qed.

(** X7.  The sorted details and the status do not depend on the order
    in which the node set is iterated, nor on the renderer: two runs
    over the same mapping whose probes take the same draws return the
    same [component_details] and [system_status], and the same failed
    components up to order. *)
Theorem report_independent_of_set_order
    (W W' : World) (rel : SystemRelationships) :
  (forall n, In n (nodes (create_dag_from_json rel)) ->
             random W n = random W' n) ->
  let r := perform_health_check W rel in
  let r' := perform_health_check W' rel in
  component_details r = component_details r' /\
  system_status r = system_status r' /\
  Permutation (failed_components r) (failed_components r').
Proof.
  intros Hdraws. cbv zeta.
  set (G := create_dag_from_json rel) in *.
  assert (HP : Permutation (raw_results W G) (raw_results W' G)).
  { unfold raw_results.
    rewrite (map_ext_in _ (fun n => check_component_health n (random W' n))).
    - apply Permutation_map.
      transitivity (nodes G).
      + apply set_iter_perm, create_dag_well_formed.
      + apply Permutation_sym, set_iter_perm, create_dag_well_formed.
    - intros n Hn. apply (proj1 (set_iter_In (hash_order W) _ n)) in Hn.
      now rewrite (Hdraws n Hn). }
  split; [| split].
  - apply sorted_perm_unique; try apply report_sorted.
    rewrite !report_component_details. fold G.
    rewrite !sort_by_component_perm. now apply Permutation_map.
  - rewrite !report_system_status. fold G.
    now rewrite (existsb_perm is_down _ _ HP).
  - rewrite !report_failed_components. fold G.
    apply Permutation_map. now apply filter_perm.
Qed.

Lemma report_independent_of_set_order_witness :
  component_details
    (perform_health_check (only_X_fails insertion_order)
                          [("X", ["Y"; "A"]); ("A", ["X"])])
  = component_details
      (perform_health_check (only_X_fails reverse_order)
                            [("X", ["Y"; "A"]); ("A", ["X"])]).
Proof.
  apply (report_independent_of_set_order
           (only_X_fails insertion_order) (only_X_fails reverse_order)
           [("X", ["Y"; "A"]); ("A", ["X"])]).
  intros n _. reflexivity.
Defined.

(** X8.  When the node set happens to be iterated in ascending order of
    the identifiers, [failed_components] is exactly the subsequence of
    the sorted [component_details] whose status is DOWN, in the same
    order. *)
Theorem failed_components_sorted_when_iteration_sorted
    (W : World) (rel : SystemRelationships) :
  StronglySorted slt
    (set_iter (hash_order W) (nodes (create_dag_from_json rel))) ->
  let r := perform_health_check W rel in
  failed_components r =
    map component (filter detail_down (component_details r)).
Proof.
  intros Hs. cbv zeta.
  rewrite report_failed_components, report_component_details.
  set (rs := raw_results W (create_dag_from_json rel)).
  assert (E : sort_by_component (map detail_of rs) = map detail_of rs).
  { apply sorted_perm_unique.
    - unfold rs. rewrite <- report_component_details. apply report_sorted.
    - apply strongly_sorted_details.
      rewrite component_detail_of. unfold rs. now rewrite raw_results_nodes.
    - apply sort_by_component_perm. }
  rewrite E, detail_down_detail_of, component_detail_of. reflexivity.
Qed.

Lemma failed_components_sorted_when_iteration_sorted_witness :
  let r := perform_health_check (all_fail insertion_order)
                                [("A", ["B"; "C"]); ("B", ["D"])] in
  failed_components r =
    map component (filter detail_down (component_details r)).
Proof.
  apply (failed_components_sorted_when_iteration_sorted
           (all_fail insertion_order) [("A", ["B"; "C"]); ("B", ["D"])]).
  vm_compute. repeat constructor.
Defined.

(** ** The node colours of [draw_graph] *)

Lemma mem_In (n : string) (l : list string) :
  existsb (String.eqb n) l = true <-> In n l.
Proof.
  rewrite existsb_exists. split.
  - intros (x & Hx & E). apply String.eqb_eq in E. now subst.
  - intros H. exists n. split; [exact H | apply String.eqb_refl].
Qed.

Lemma failed_components_NoDup (W : World) (rel : SystemRelationships) :
  NoDup (failed_components (perform_health_check W rel)).
Proof.
  rewrite report_failed_components. apply filter_NoDup_map.
  rewrite raw_results_nodes. apply set_iter_NoDup.
Qed.

Lemma count_red (failed : list string) (l : list string) :
  count_occ string_dec
    (map (fun node =>
            if existsb (String.eqb node) failed then "red" else "#7AC142") l)
    "red"
  = length (filter (fun node => existsb (String.eqb node) failed) l).
Proof.
  induction l as [| n l IH]; [reflexivity |].
  cbn [map filter]. destruct (existsb (String.eqb n) failed).
  - rewrite count_occ_cons_eq by reflexivity. cbn [length]. now rewrite IH.
  - rewrite count_occ_cons_neq by discriminate. exact IH.
Qed.

(** X9.  In the picture of a run, a node is coloured red exactly when
    its own probe returned DOWN, and green otherwise. *)
Theorem red_nodes_are_the_down_nodes (W : World) (rel : SystemRelationships) :
  let G := create_dag_from_json rel in
  node_colors G (failed_components (perform_health_check W rel)) =
  map (fun n =>
         if is_down (check_component_health n (random W n))
         then "red" else "#7AC142")
      (nodes G).
Proof.
  cbv zeta. unfold node_colors. apply map_ext_in. intros n Hn.
  rewrite is_down_probe.
  destruct (probe_down W n) eqn:E.
  - replace (existsb (String.eqb n)
               (failed_components (perform_health_check W rel))) with true;
      [reflexivity |].
    symmetry. apply mem_In, failed_components_In. auto.
  - replace (existsb (String.eqb n)
               (failed_components (perform_health_check W rel))) with false;
      [reflexivity |].
    symmetry. apply not_true_iff_false. rewrite mem_In, failed_components_In.
    intros [_ H]. congruence.
Qed.

(** X10.  The picture of a run has as many red nodes as the report has
    failed components. *)
Theorem red_count_is_failed_count (W : World) (rel : SystemRelationships) :
  let G := create_dag_from_json rel in
  let r := perform_health_check W rel in
  count_occ string_dec (node_colors G (failed_components r)) "red"
  = length (failed_components r).
Proof.
  cbv zeta. unfold node_colors. rewrite count_red.
  apply Permutation_length, NoDup_Permutation.
  - apply NoDup_filter, create_dag_well_formed.
  - apply failed_components_NoDup.
  - intros n. rewrite filter_In, mem_In, failed_components_In. tauto.
Qed.

(** ** The console table *)

Lemma py_len_app (s t : string) : py_len (s ++ t) = (py_len s + py_len t)%nat.
Proof.
  induction s as [| c s IH]; [reflexivity |].
  cbn [append py_len]. rewrite IH. lia.
Qed.

Lemma py_len_spaces (n : nat) : py_len (repeat_string " " n) = n.
Proof. induction n as [| n IH]; [reflexivity |]. cbn in *. now rewrite IH. Qed.

Lemma py_len_ljust (w : nat) (s : string) :
  py_len (ljust w s) = Nat.max w (py_len s).
Proof. unfold ljust. rewrite py_len_app, py_len_spaces. lia. Qed.

(** X11.  A row of the table is never truncated and never shorter
    than 62 characters: its length is the sum of the three column
    widths, each the larger of the nominal width (20, 10, 30) and the
    length of the field, plus the two separating spaces. *)
Theorem row_width (a b c : string) :
  py_len (row_format a b c)
  = (Nat.max 20 (py_len a) + Nat.max 10 (py_len b)
     + Nat.max 30 (py_len c) + 2)%nat.
Proof.
  unfold row_format. rewrite !py_len_app, !py_len_ljust. cbn [py_len].
  cbn. lia.
Qed.

Lemma details_of_report_nonempty (W : World) (rel : SystemRelationships) :
  Forall (fun d => details d <> "" /\
                   count_newlines (status d) = 0%nat /\
                   count_newlines (details d) = 0%nat /\
                   In (component d) (nodes (create_dag_from_json rel)))
         (component_details (perform_health_check W rel)).
Proof.
  rewrite report_component_details.
  apply (Permutation_Forall (Permutation_sym (sort_by_component_perm _))).
  apply Forall_forall. intros d Hd.
  apply in_map_iff in Hd. destruct Hd as (r & <- & Hr).
  apply raw_results_In in Hr. destruct Hr as (n & Hn & ->).
  destruct (probe_cases n (random W n)) as [-> | ->]; cbn;
    repeat split; auto; discriminate.
Qed.

Lemma table_rows_verbatim (cds : list ComponentDetail) :
  Forall (fun d => details d <> "") cds ->
  forall table,
    fold_left table_row (table_data cds) table =
    fold_left
      (fun t d =>
       (t ++ row_format (component d) (status d) (details d) ++ newline)%string)
      cds table.
Proof.
  induction 1 as [| d cds Hd _ IH]; intros table; [reflexivity |].
  cbn [table_data map fold_left]. fold (table_data cds). rewrite IH.
  f_equal. cbn [table_row error_or_OK].
  destruct (details d); [contradiction | reflexivity].
Qed.

(** X12.  The table printed for a run shows, row by row in the order
    of [component_details], the component, status and details of the
    report unchanged: the second "OK" default of [format_table] never
    replaces a detail. *)
Theorem table_shows_report_details (W : World) (rel : SystemRelationships) :
  let cds := component_details (perform_health_check W rel) in
  format_table (table_data cds) =
  fold_left
    (fun t d =>
       (t ++ row_format (component d) (status d) (details d) ++ newline)%string)
    cds table_head.
Proof.
  cbv zeta. unfold format_table. apply table_rows_verbatim.
  apply (Forall_impl _ (P := fun d =>
           details d <> "" /\ count_newlines (status d) = 0%nat /\
           count_newlines (details d) = 0%nat /\
           In (component d) (nodes (create_dag_from_json rel)))).
  - intros d H. apply H.
  - apply details_of_report_nonempty.
Qed.

Lemma count_newlines_app (s t : string) :
  count_newlines (s ++ t) = (count_newlines s + count_newlines t)%nat.
Proof.
  induction s as [| c s IH]; [reflexivity |].
  cbn [append count_newlines]. rewrite IH. lia.
Qed.

Lemma count_newlines_spaces (n : nat) :
  count_newlines (repeat_string " " n) = 0%nat.
Proof. induction n as [| n IH]; [reflexivity | exact IH]. Qed.

Lemma count_newlines_row (a b c : string) :
  count_newlines (row_format a b c ++ newline)
  = (count_newlines a + count_newlines b + count_newlines c + 1)%nat.
Proof.
  unfold row_format, ljust.
  rewrite !count_newlines_app, !count_newlines_spaces. cbn. lia.
Qed.

Lemma count_newlines_rows (rs : list ProbeResult) :
  Forall (fun r => count_newlines (node_of r) = 0%nat /\
                   count_newlines (status_of r) = 0%nat /\
                   count_newlines (error_or_OK (error_of r)) = 0%nat) rs ->
  forall table,
    count_newlines (fold_left table_row rs table)
    = (count_newlines table + length rs)%nat.
Proof.
  induction 1 as [| [[a b] c] rs (Ha & Hb & Hc) _ IH]; intros table.
  - cbn. lia.
  - cbn [fold_left length]. rewrite IH. cbn [table_row].
    rewrite count_newlines_app, count_newlines_row.
    cbn [node_of status_of error_of fst snd] in Ha, Hb, Hc. lia.
Qed.

(** X13.  When no component identifier contains a line feed, the table
    printed for a run has exactly three lines of heading (a blank line,
    the column titles, the rule) and one line per node of the graph. *)
Theorem table_has_one_line_per_node (W : World) (rel : SystemRelationships) :
  (forall n, In n (nodes (create_dag_from_json rel)) ->
             count_newlines n = 0%nat) ->
  count_newlines
    (format_table
       (table_data (component_details (perform_health_check W rel))))
  = (3 + length (nodes (create_dag_from_json rel)))%nat.
Proof.
  intros Hids. unfold format_table. rewrite count_newlines_rows.
  - unfold table_data. rewrite length_map.
    rewrite <- (Permutation_length (report_components_perm W rel)).
    rewrite length_map. reflexivity.
  - unfold table_data. apply Forall_map.
    apply (Forall_impl _ (P := fun d =>
             details d <> "" /\ count_newlines (status d) = 0%nat /\
             count_newlines (details d) = 0%nat /\
             In (component d) (nodes (create_dag_from_json rel)))).
    + intros d (Hne & Hs & Hd & Hin).
      cbn [node_of status_of error_of fst snd error_or_OK].
      repeat split; auto.
      destruct (details d); [contradiction | exact Hd].
    + apply details_of_report_nonempty.
Qed.

Lemma table_has_one_line_per_node_witness :
  count_newlines
    (format_table
       (table_data
          (component_details
             (perform_health_check (only_X_fails reverse_order)
                                   [("X", ["Y"])]))))
  = 5%nat.
Proof.
  apply (table_has_one_line_per_node (only_X_fails reverse_order)
                                     [("X", ["Y"])]).
  intros n Hn. cbn in Hn. destruct Hn as [<- | [<- | []]]; reflexivity.
Defined.
